(** * Sensorless vector control of a 7-kW synchronous reluctance motor

    A shallow embedding of [config/ctrl_sensorless_vector_syrm_7kW.py]: the
    two parameter data classes, the statements of the configuration script,
    and the helpers the script calls ([helpers.LUT], [helpers.Sequence],
    [control.sm.opt_refs.OptimalLoci]).

    Numbers are Python floats, that is IEEE 754 binary64: they are modelled
    by Rocq's primitive floats, whose operations round like Python's, so the
    constants of the script evaluate here to the values Python computes. *)

From Stdlib Require Import Floats ZArith Uint63 List Lia Bool Sorted.
Import ListNotations.

Set Warnings "-inexact-float".

(** ** Numbers *)

(** [np.pi], the binary64 value nearest to pi. *)
Definition pi : float := 0x1.921fb54442d18p+1%float.

(** Conversion of a Python [int] that meets a float in an arithmetic
    operation (exact below 2^53 in magnitude, the range used here). *)
Definition of_int (n : Z) : float :=
if (n <? 0)%Z then PrimFloat.opp (PrimFloat.of_uint63 (Uint63.of_Z (- n)))
else PrimFloat.of_uint63 (Uint63.of_Z n).

(** A complex current phasor: [real] is the d-axis current, [imag] the
    q-axis current. *)
Record Complex : Type := mkComplex { real : float; imag : float }.

(** ** The order of binary64 numbers

    [<?], [<=?] and [=?] on floats are specified by [SFcompare] on the
    decoded float.  It is read here as the comparison of a key, which
    gives the order laws the interpolation proofs need. *)
Module FloatOrder.

(** Order of two positive numbers [m * 2^e] as [SFcompare] decides it:
    exponents first, mantissas on equal exponents. *)
Definition lex (e1 : Z) (m1 : positive) (e2 : Z) (m2 : positive) : comparison :=
match Z.compare e1 e2 with
| Lt => Lt
| Gt => Gt
| Eq => Pos.compare m1 m2
end.

Inductive key : Type :=
| KNegInf
| KNeg (e : Z) (m : positive)
| KZero
| KPos (e : Z) (m : positive)
| KPosInf.

(** The key of a number; NaN has none. *)
Definition key_of (x : spec_float) : option key :=
match x with
| S754_nan => None
| S754_infinity true => Some KNegInf
| S754_infinity false => Some KPosInf
| S754_zero _ => Some KZero
| S754_finite true m e => Some (KNeg e m)
| S754_finite false m e => Some (KPos e m)
end.

Definition rank (a : key) : Z :=
match a with
| KNegInf => 0
| KNeg _ _ => 1
| KZero => 2
| KPos _ _ => 3
| KPosInf => 4
end.

Definition key_cmp (a b : key) : comparison :=
match a, b with
| KNeg e1 m1, KNeg e2 m2 => lex e2 m2 e1 m1
| KPos e1 m1, KPos e2 m2 => lex e1 m1 e2 m2
| _, _ => Z.compare (rank a) (rank b)
end.

End FloatOrder.

(** The key of a float. *)
Definition fkey (x : float) : option FloatOrder.key :=
FloatOrder.key_of (Prim2SF x).

(** ** Errors

    The error taxonomy of the specification, and [PythonException] for an
    exception of Python itself (an index or an attribute that does not
    exist). *)
Inductive Error : Type :=
| InvalidParameter
| DegenerateMachineError
| InvalidSweepRange
| PythonException.

Inductive result (A : Type) : Type :=
| Ok (a : A)
| Err (e : Error).
Arguments Ok {A} a.
Arguments Err {A} e.

(** ** Piecewise interpolant: [helpers.LUT] and [helpers.Sequence] *)

Open Scope float_scope.

(** Modelled from the spec: the evaluation of a piecewise interpolant over
    its nodes (abscissa, value), the body of [LUT.__call__] and
    [Sequence.__call__] of [helpers], which is not part of the sources.
    [interp_from x n0 nodes] is called with the query at or right of the
    node [n0]: it moves right while the next abscissa is still at or left
    of the query (so that, of two equal abscissas, the second one is used:
    right-limit), returns the last value when the nodes run out (clamping)
    and the node's own value at a node, and otherwise interpolates
    linearly between [n0] and the next node. *)
Fixpoint interp_from (x : float) (n0 : float * float)
  (nodes : list (float * float)) : float :=
match nodes with
| [] => snd n0
| n1 :: rest =>
    if fst n1 <=? x then interp_from x n1 rest
    else if fst n0 =? x then snd n0
    else (snd n1 - snd n0) / (fst n1 - fst n0) * (x - fst n0) + snd n0
end.

(** Modelled from the spec: a query over the nodes of an interpolant.
    Below the first abscissa the first value is returned (clamping).
    There is no value without a node. *)
Definition interp_nodes (x : float) (nodes : list (float * float)) : option float :=
match nodes with
| [] => None
| n0 :: rest => Some (if x <? fst n0 then snd n0 else interp_from x n0 rest)
end.

(** Modelled from the spec: a query of the interpolant built from the
    arrays [xp] and [fp].  [None] stands for the construction contract
    being broken: arrays of different lengths, or no node at all. *)
Definition interp (x : float) (xp fp : list float) : option float :=
if Nat.eqb (length xp) (length fp) then interp_nodes x (combine xp fp)
else None.

(** Modelled from the spec: the lookup table, an abscissa array paired with
    a value array ([helpers.LUT] is not part of the sources). *)
Record LUT : Type := mkLUT { abscissa : list float; value : list float }.

(** Modelled from the spec: the time profile, of the same shape as the
    lookup table ([helpers.Sequence] is not part of the sources; the script
    reads its attribute [times]). *)
Record Sequence : Type := mkSequence { times : list float; values : list float }.

(** The two kinds of interpolant, behind the one call interface
    [evaluate(query)]. *)
Inductive Interpolant : Type :=
| OfLUT (t : LUT)
| OfSequence (s : Sequence).

Definition nodes_x (I : Interpolant) : list float :=
match I with
| OfLUT t => abscissa t
| OfSequence s => times s
end.

Definition nodes_y (I : Interpolant) : list float :=
match I with
| OfLUT t => value t
| OfSequence s => values s
end.

Definition evaluate (I : Interpolant) (x : float) : option float :=
interp x (nodes_x I) (nodes_y I).

(** The invariant of the data model: the abscissa is ordered, ties
    permitted. *)
Fixpoint nondecreasing (xs : list float) : bool :=
match xs with
| x0 :: ((x1 :: _) as rest) => (x0 <=? x1) && nondecreasing rest
| _ => true
end.

(** ** Base values *)

Module BaseValues.

(** The data class [BaseValues].  The fields [w], [i], [u], [p] are the
    rated values; the others are base values derived from them. *)
Record t : Type := mk {
  w : float;
  i : float;
  u : float;
  p : BinNums.Z;
  psi : float;
  P : float;
  Z : float;
  L : float;
  tau : float
}.

(** The defaults of the fields.  Python evaluates them once, in the class
    body, each from the defaults above it. *)
Definition w_default : float := 2 * pi * 105.8.
Definition i_default : float := PrimFloat.sqrt 2 * 15.5.
Definition u_default : float := PrimFloat.sqrt (2 / 3) * 370.
Definition p_default : BinNums.Z := 2%Z.
Definition psi_default : float := u_default / w_default.
Definition P_default : float := 1.5 * u_default * i_default.
Definition Z_default : float := u_default / i_default.
Definition L_default : float := Z_default / w_default.
Definition tau_default : float := of_int p_default * P_default / w_default.

(** The keyword arguments of a call [BaseValues(...)]: every field can be
    passed, each one is optional. *)
Record kwargs : Type := mk_kwargs {
  kw_w : option float;
  kw_i : option float;
  kw_u : option float;
  kw_p : option BinNums.Z;
  kw_psi : option float;
  kw_P : option float;
  kw_Z : option float;
  kw_L : option float;
  kw_tau : option float
}.

Definition no_kwargs : kwargs :=
mk_kwargs None None None None None None None None None.

(** The rated values passed, the derived fields left out: [BaseValues(w=w,
    i=i, u=u, p=p)]. *)
Definition rated (w i u : float) (p : BinNums.Z) : kwargs :=
mk_kwargs (Some w) (Some i) (Some u) (Some p) None None None None None.

Definition or_default {A : Type} (o : option A) (d : A) : A :=
match o with
| Some a => a
| None => d
end.

(** The [__init__] the [dataclass] decorator generates: each field is set
    to its argument, or to its default when the argument is left out.
    Nothing is checked and nothing is recomputed. *)
Definition init (k : kwargs) : t :=
mk (or_default (kw_w k) w_default)
   (or_default (kw_i k) i_default)
   (or_default (kw_u k) u_default)
   (or_default (kw_p k) p_default)
   (or_default (kw_psi k) psi_default)
   (or_default (kw_P k) P_default)
   (or_default (kw_Z k) Z_default)
   (or_default (kw_L k) L_default)
   (or_default (kw_tau k) tau_default).

(** The outcome of the call [BaseValues(...)]: [__init__] has no [raise],
    the call returns the record. *)
Definition construct (k : kwargs) : result t := Ok (init k).

(** The four identities between the base values, as float equalities. *)
Definition identities (b : t) : bool :=
(Z b * i b =? u b) && (L b * w b =? Z b)
&& (P b =? 1.5 * u b * i b) && (tau b * w b =? of_int (p b) * P b).

(** The rated inputs are valid: all positive. *)
Definition valid_rated (w i u : float) (p : BinNums.Z) : bool :=
(0 <? w) && (0 <? i) && (0 <? u) && (0 <? p)%Z.

End BaseValues.

(** ** Controller parameters *)

Module CtrlParameters.

(** The data class [CtrlParameters], and the two attributes the script
    adds to the object after it is constructed: the lookup tables
    [i_sd_mtpa] and [i_sq_mtpv], absent until they are assigned. *)
Record t : Type := mk {
  T_s : float;
  alpha_c : float;
  alpha_fw : float;
  alpha_s : float;
  w_o : float;
  tau_M_max : float;
  i_s_max : float;
  i_sd_min : float;
  u_dc_nom : float;
  w_nom : float;
  R_s : float;
  L_d : float;
  L_q : float;
  psi_f : float;
  p : Z;
  J : float;
  i_sd_mtpa : option LUT;
  i_sq_mtpv : option LUT
}.

(** [CtrlParameters()]: every field at its default.  The source writes the
    defaults of [u_dc_nom] and [psi_f] as the integers 540 and 0; they are
    given here as the floats Python converts them to in arithmetic. *)
Definition init : t :=
mk 250e-6
   (2 * pi * 100) (2 * pi * 20) (2 * pi * 4)
   (2 * pi * 40)
   (2 * 20.1) (2 * PrimFloat.sqrt 2 * 15.5) (0.25 * PrimFloat.sqrt 2 * 15.5)
   540 (2 * pi * 105.8)
   0.54 41.5e-3 6.2e-3 0 2%Z 0.015
   None None.

(** [pars.i_sd_mtpa = lut] *)
Definition set_i_sd_mtpa (lut : LUT) (c : t) : t :=
mk (T_s c) (alpha_c c) (alpha_fw c) (alpha_s c) (w_o c) (tau_M_max c)
   (i_s_max c) (i_sd_min c) (u_dc_nom c) (w_nom c) (R_s c) (L_d c) (L_q c)
   (psi_f c) (p c) (J c) (Some lut) (i_sq_mtpv c).

(** [pars.i_sq_mtpv = lut] *)
Definition set_i_sq_mtpv (lut : LUT) (c : t) : t :=
mk (T_s c) (alpha_c c) (alpha_fw c) (alpha_s c) (w_o c) (tau_M_max c)
   (i_s_max c) (i_sd_min c) (u_dc_nom c) (w_nom c) (R_s c) (L_d c) (L_q c)
   (psi_f c) (p c) (J c) (i_sd_mtpa c) (Some lut).

End CtrlParameters.

(** ** Optimal current loci: [control.sm.opt_refs.OptimalLoci] *)

(** Modelled from the spec: the solver is given the motor's electrical
    parameters; these are the ones its torque function names
    ([OptimalLoci] is not part of the sources). *)
Record OptimalLoci : Type := mkOptimalLoci {
  ol_p : Z;
  ol_psi_f : float;
  ol_L_d : float;
  ol_L_q : float
}.

Definition OptimalLoci_init (pars : CtrlParameters.t) : OptimalLoci :=
mkOptimalLoci (CtrlParameters.p pars) (CtrlParameters.psi_f pars)
  (CtrlParameters.L_d pars) (CtrlParameters.L_q pars).

(** Modelled from the spec: [torque(i_s) = pole_pairs * (psi_f * imag(i_s)
    + (L_d - L_q) * real(i_s) * imag(i_s))]. *)
Definition torque1 (ol : OptimalLoci) (i_s : Complex) : float :=
of_int (ol_p ol)
* (ol_psi_f ol * imag i_s + (ol_L_d ol - ol_L_q ol) * real i_s * imag i_s).

(** The torque function over an array of phasors. *)
Definition torque (ol : OptimalLoci) (i_s : list Complex) : list float :=
map (torque1 ol) i_s.

(** Modelled from the spec: the non-salient optimum, purely q-axis
    current of the swept magnitude. *)
Definition q_axis_only (magnitude : float) : Complex := mkComplex 0 magnitude.

Section Loci.

(** The magnitudes of the sweep from 0 to a bound: the specification
    fixes neither their number nor their spacing. *)
Variable sweep : float -> list float.

(** The closed-form MTPA optimum of a salient machine at a magnitude: the
    specification names it (the root of the torque-angle derivative) and
    does not spell it out. *)
Variable mtpa_closed_form : OptimalLoci -> float -> Complex.

(** Modelled from the spec: the closed form needs non-zero saliency; with
    [L_d == L_q] the solver signals [DegenerateMachineError] here. *)
Definition mtpa_salient (ol : OptimalLoci) (magnitude : float) : result Complex :=
if ol_L_d ol =? ol_L_q ol then Err DegenerateMachineError
else Ok (mtpa_closed_form ol magnitude).

(** Modelled from the spec: the MTPA phasor at one magnitude; a
    degenerate machine falls back to the q-axis-only solution. *)
Definition mtpa_point (ol : OptimalLoci) (magnitude : float) : Complex :=
match mtpa_salient ol magnitude with
| Ok i_s => i_s
| Err _ => q_axis_only magnitude
end.

(** Modelled from the spec: the MTPA locus over the magnitude sweep; a
    sweep bound [<= 0] is refused with [InvalidSweepRange]. *)
Definition mtpa (ol : OptimalLoci) (i_s_max : float) : result (list Complex) :=
if i_s_max <=? 0 then Err InvalidSweepRange
else Ok (map (mtpa_point ol) (sweep i_s_max)).

End Loci.

(** ** The control system and the motor model, as the script sees them *)

(** The controller classes the script instantiates from [pars]. *)
Inductive Component : Type :=
| SpeedCtrl
| CurrentRef
| CurrentCtrl
| SensorlessObserver.

(** A controller object, known by its construction: its class and the
    parameter object handed to its constructor.  What the classes compute
    is outside the sources. *)
Record Controller : Type := mkController {
  component : Component;
  built_from : CtrlParameters.t
}.

(** [Datalogger()] takes no argument. *)
Inductive Datalogger : Type := mkDatalogger.

(** [SensorlessVectorCtrl(pars, speed_ctrl, current_ref, current_ctrl,
    observer, datalog)] *)
Record SensorlessVectorCtrl : Type := mkSensorlessVectorCtrl {
  ctrl_pars : CtrlParameters.t;
  ctrl_speed_ctrl : Controller;
  ctrl_current_ref : Controller;
  ctrl_current_ctrl : Controller;
  ctrl_observer : Controller;
  ctrl_datalog : Datalogger
}.

(** The attributes of [mdl] (imported from [config.mdl_syrm_7kW]) that the
    script assigns; [tau_L_ext] is the attribute of [mdl.mech]. *)
Record Mdl : Type := mkMdl {
  speed_ref : option Sequence;
  tau_L_ext : option Sequence;
  t_stop : option float
}.

(** The calls the script makes, in the order it makes them.  A
    constructor call records the parameter object as it is at that
    moment. *)
Inductive Event : Type :=
| EvOptimalLoci (pars : CtrlParameters.t)
| EvMtpa (i_s_max : float)
| EvTorque (i_s : list Complex)
| EvLUT (x y : list float)
| EvMtpv (i_s_max : float)
| EvPlot (i_s_max : float) (base : BaseValues.t)
| EvNew (c : Component) (pars : CtrlParameters.t)
| EvDatalogger
| EvSensorlessVectorCtrl (pars : CtrlParameters.t)
| EvSequence (times values : list float).

(** The state the statements of the script act on: the object [pars], the
    object [mdl], and the calls made so far. *)
Record State : Type := mkState {
  st_pars : CtrlParameters.t;
  st_mdl : Mdl;
  st_log : list Event
}.

(** A statement: it fails with an error, or returns a value and the next
    state. *)
Definition M (A : Type) : Type := State -> result (A * State).

Definition ret {A : Type} (a : A) : M A := fun s => Ok (a, s).

Definition mbind {A B : Type} (m : M A) (f : A -> M B) : M B :=
fun s =>
  match m s with
  | Ok (a, s') => f a s'
  | Err e => Err e
  end.

Notation "x <- m ;; k" := (mbind m (fun x => k))
  (at level 61, m at next level, right associativity).
Notation "m ;;; k" := (mbind m (fun _ => k))
  (at level 61, right associativity).

(** An error raised by a call ends the script. *)
Definition lift {A : Type} (r : result A) : M A :=
fun s =>
  match r with
  | Ok a => Ok (a, s)
  | Err e => Err e
  end.

Definition emit (e : Event) : M unit :=
fun s => Ok (tt, mkState (st_pars s) (st_mdl s) (st_log s ++ [e])).

Definition get_pars : M CtrlParameters.t := fun s => Ok (st_pars s, s).

Definition update_pars (f : CtrlParameters.t -> CtrlParameters.t) : M unit :=
fun s => Ok (tt, mkState (f (st_pars s)) (st_mdl s) (st_log s)).

Definition get_mdl : M Mdl := fun s => Ok (st_mdl s, s).

Definition update_mdl (f : Mdl -> Mdl) : M unit :=
fun s => Ok (tt, mkState (st_pars s) (f (st_mdl s)) (st_log s)).

(** [xs[-1]]: the last item; Python raises [IndexError] on an empty
    array. *)
Definition last_item (xs : list float) : result float :=
match xs with
| [] => Err PythonException
| x :: rest => Ok (last rest x)
end.

(** [obj.attr] for an attribute that may not have been assigned. *)
Definition attribute {A : Type} (o : option A) : result A :=
match o with
| Some a => Ok a
| None => Err PythonException
end.

(** ** The configuration script *)

Section Script.

Variable sweep : float -> list float.
Variable mtpa_closed_form : OptimalLoci -> float -> Complex.

(** The voltage-constrained optimum over the sweep: the specification
    names it and does not spell it out. *)
Variable mtpv_locus : OptimalLoci -> float -> list Complex.

(** Modelled from the spec: the MTPV locus, under the same guard on the
    sweep bound as the MTPA locus. *)
Definition mtpv (ol : OptimalLoci) (i_s_max : float) : result (list Complex) :=
if i_s_max <=? 0 then Err InvalidSweepRange
else Ok (mtpv_locus ol i_s_max).

(** [np.array(ints) * x]: each integer is converted and multiplied. *)
Definition scale (ints : list Z) (x : float) : list float :=
map (fun n => of_int n * x) ints.

(** The statements of the script from [pars = CtrlParameters()] on, for a
    given value of [base].  The names [times] and [values], which the
    script binds twice, are [times_ref], [values_ref] the first time and
    [times_load], [values_load] the second.  The [print] statements at the
    end change nothing and are left out. *)
Definition script (base : BaseValues.t) : M (OptimalLoci * SensorlessVectorCtrl) :=
  (* opt_refs = OptimalLoci(pars) *)
  pars <- get_pars ;;
  emit (EvOptimalLoci pars) ;;;
  let opt_refs := OptimalLoci_init pars in
  (* i_s_mtpa = opt_refs.mtpa(2*pars.i_s_max) *)
  pars <- get_pars ;;
  emit (EvMtpa (2 * CtrlParameters.i_s_max pars)) ;;;
  i_s_mtpa <- lift (mtpa sweep mtpa_closed_form opt_refs
                      (2 * CtrlParameters.i_s_max pars)) ;;
  (* tau_M_mtpa = opt_refs.torque(i_s_mtpa) *)
  emit (EvTorque i_s_mtpa) ;;;
  let tau_M_mtpa := torque opt_refs i_s_mtpa in
  (* pars.i_sd_mtpa = LUT(tau_M_mtpa, i_s_mtpa.real) *)
  emit (EvLUT tau_M_mtpa (map real i_s_mtpa)) ;;;
  update_pars (CtrlParameters.set_i_sd_mtpa
                 (mkLUT tau_M_mtpa (map real i_s_mtpa))) ;;;
  (* i_s_mtpv = opt_refs.mtpv(2*pars.i_s_max) *)
  pars <- get_pars ;;
  emit (EvMtpv (2 * CtrlParameters.i_s_max pars)) ;;;
  i_s_mtpv <- lift (mtpv opt_refs (2 * CtrlParameters.i_s_max pars)) ;;
  (* pars.i_sq_mtpv = LUT(i_s_mtpv.real, i_s_mtpv.imag) *)
  emit (EvLUT (map real i_s_mtpv) (map imag i_s_mtpv)) ;;;
  update_pars (CtrlParameters.set_i_sq_mtpv
                 (mkLUT (map real i_s_mtpv) (map imag i_s_mtpv))) ;;;
  (* opt_refs.plot(2*pars.i_s_max, base) *)
  pars <- get_pars ;;
  emit (EvPlot (2 * CtrlParameters.i_s_max pars) base) ;;;
  (* speed_ctrl = SpeedCtrl(pars) ... observer = SensorlessObserver(pars) *)
  pars <- get_pars ;;
  emit (EvNew SpeedCtrl pars) ;;;
  let speed_ctrl := mkController SpeedCtrl pars in
  pars <- get_pars ;;
  emit (EvNew CurrentRef pars) ;;;
  let current_ref := mkController CurrentRef pars in
  pars <- get_pars ;;
  emit (EvNew CurrentCtrl pars) ;;;
  let current_ctrl := mkController CurrentCtrl pars in
  pars <- get_pars ;;
  emit (EvNew SensorlessObserver pars) ;;;
  let observer := mkController SensorlessObserver pars in
  (* datalog = Datalogger() *)
  emit EvDatalogger ;;;
  let datalog := mkDatalogger in
  (* ctrl = SensorlessVectorCtrl(pars, speed_ctrl, current_ref,
                                 current_ctrl, observer, datalog) *)
  pars <- get_pars ;;
  emit (EvSensorlessVectorCtrl pars) ;;;
  let ctrl := mkSensorlessVectorCtrl pars speed_ctrl current_ref
                current_ctrl observer datalog in
  (* times = np.array([0, .5, 1, 1.5, 2, 2.5, 3, 3.5, 4])
     values = np.array([0, 0, 1, 1, 0, -1, -1, 0, 0])*base.w
     mdl.speed_ref = Sequence(times, values) *)
  let times_ref := [0; 0.5; 1; 1.5; 2; 2.5; 3; 3.5; 4] in
  let values_ref := scale [0; 0; 1; 1; 0; -1; -1; 0; 0]%Z (BaseValues.w base) in
  emit (EvSequence times_ref values_ref) ;;;
  update_mdl (fun m => mkMdl (Some (mkSequence times_ref values_ref))
                             (tau_L_ext m) (t_stop m)) ;;;
  (* times = np.array([0, .5, .5, 3.5, 3.5, 4])
     values = np.array([0, 0, 1, 1, 0, 0])*20.1
     mdl.mech.tau_L_ext = Sequence(times, values) *)
  let times_load := [0; 0.5; 0.5; 3.5; 3.5; 4] in
  let values_load := scale [0; 0; 1; 1; 0; 0]%Z 20.1 in
  emit (EvSequence times_load values_load) ;;;
  update_mdl (fun m => mkMdl (speed_ref m)
                             (Some (mkSequence times_load values_load)) (t_stop m)) ;;;
  (* mdl.t_stop = mdl.speed_ref.times[-1] *)
  mdl <- get_mdl ;;
  sr <- lift (attribute (speed_ref mdl)) ;;
  t <- lift (last_item (times sr)) ;;
  update_mdl (fun m => mkMdl (speed_ref m) (tau_L_ext m) (Some t)) ;;;
  ret (opt_refs, ctrl).

(** The run of the script from [base = BaseValues()], with the imported
    [mdl] as it is before the script touches it. *)
Definition run (base : BaseValues.t) (mdl0 : Mdl)
  : result (OptimalLoci * SensorlessVectorCtrl * State) :=
script base (mkState CtrlParameters.init mdl0 []).

Definition main (mdl0 : Mdl) : result (OptimalLoci * SensorlessVectorCtrl * State) :=
run (BaseValues.init BaseValues.no_kwargs) mdl0.

End Script.

(** ** Reading a run of the script *)

(** The sweep bounds the two loci were asked for. *)
Definition mtpa_bounds (log : list Event) : list float :=
flat_map (fun e => match e with EvMtpa b => [b] | _ => [] end) log.

Definition mtpv_bounds (log : list Event) : list float :=
flat_map (fun e => match e with EvMtpv b => [b] | _ => [] end) log.

(** The lookup tables built, in the order of the calls of [LUT]. *)
Definition luts_built (log : list Event) : list LUT :=
flat_map (fun e => match e with EvLUT x y => [mkLUT x y] | _ => [] end) log.

(** The call constructs a component of the control system. *)
Definition is_construction (e : Event) : bool :=
match e with
| EvNew _ _ | EvDatalogger | EvSensorlessVectorCtrl _ => true
| _ => false
end.

(** The calls made before the first component is constructed. *)
Fixpoint before_controllers (log : list Event) : list Event :=
match log with
| [] => []
| e :: rest => if is_construction e then [] else e :: before_controllers rest
end.

(** The parameter objects the components were constructed from, each as
    it was at the construction. *)
Definition constructed_from (log : list Event) : list CtrlParameters.t :=
flat_map (fun e =>
            match e with
            | EvNew _ pars | EvSensorlessVectorCtrl pars => [pars]
            | _ => []
            end) log.

(** The parts of the outcome of a run. *)
Definition pars_of (r : result (OptimalLoci * SensorlessVectorCtrl * State))
  : option CtrlParameters.t :=
match r with
| Ok (_, _, st) => Some (st_pars st)
| Err _ => None
end.



(** ** Stand-ins for the collaborators, to run the definitions on examples *)

(** A sweep of three magnitudes. *)
Definition sweep3 (bound : float) : list float := [0; bound / 2; bound].

(** The optimum of a reluctance machine without magnet flux: equal d-axis
    and q-axis currents. *)
Definition mtpa_45deg (ol : OptimalLoci) (magnitude : float) : Complex :=
mkComplex (magnitude / PrimFloat.sqrt 2) (magnitude / PrimFloat.sqrt 2).




(** ** Further readings of a run *)

(** The parameter object without the two tables the script adds: its
    declared fields. *)
Definition without_tables (c : CtrlParameters.t) : CtrlParameters.t :=
CtrlParameters.mk
  (CtrlParameters.T_s c) (CtrlParameters.alpha_c c) (CtrlParameters.alpha_fw c)
  (CtrlParameters.alpha_s c) (CtrlParameters.w_o c) (CtrlParameters.tau_M_max c)
  (CtrlParameters.i_s_max c) (CtrlParameters.i_sd_min c)
  (CtrlParameters.u_dc_nom c) (CtrlParameters.w_nom c) (CtrlParameters.R_s c)
  (CtrlParameters.L_d c) (CtrlParameters.L_q c) (CtrlParameters.psi_f c)
  (CtrlParameters.p c) (CtrlParameters.J c) None None.

(** The parameter objects the locus solver was constructed from. *)
Definition loci_constructed_from (log : list Event) : list CtrlParameters.t :=
flat_map (fun e => match e with EvOptimalLoci pars => [pars] | _ => [] end) log.

(** A call, without its arguments. *)
Inductive Call : Type :=
| CallOptimalLoci
| CallMtpa
| CallTorque
| CallLUT
| CallMtpv
| CallPlot
| CallNew (c : Component)
| CallDatalogger
| CallSensorlessVectorCtrl
| CallSequence.

Definition call_of (e : Event) : Call :=
match e with
| EvOptimalLoci _ => CallOptimalLoci
| EvMtpa _ => CallMtpa
| EvTorque _ => CallTorque
| EvLUT _ _ => CallLUT
| EvMtpv _ => CallMtpv
| EvPlot _ _ => CallPlot
| EvNew c _ => CallNew c
| EvDatalogger => CallDatalogger
| EvSensorlessVectorCtrl _ => CallSensorlessVectorCtrl
| EvSequence _ _ => CallSequence
end.

(** The calls of [plot], each with its sweep bound and its base values. *)
Definition plots (log : list Event) : list (float * BaseValues.t) :=
flat_map (fun e => match e with EvPlot b base => [(b, base)] | _ => [] end) log.

(** The sequences built, in the order of the calls of [Sequence]. *)
Definition sequences_built (log : list Event) : list Sequence :=
flat_map (fun e =>
            match e with
            | EvSequence t v => [mkSequence t v]
            | _ => []
            end) log.

(** * Properties *)

(** ** The order of binary64 numbers *)

Lemma lex_spec e1 m1 e2 m2 :
  CompareSpec (e1 = e2 /\ m1 = m2)
    (e1 < e2 \/ (e1 = e2 /\ (m1 < m2)%positive))%Z
    (e2 < e1 \/ (e1 = e2 /\ (m2 < m1)%positive))%Z
    (FloatOrder.lex e1 m1 e2 m2).
Proof.
  unfold FloatOrder.lex.
  destruct (Z.compare_spec e1 e2) as [He|He|He]; try (constructor; lia).
  destruct (Pos.compare_spec m1 m2); constructor; lia.
Qed.

Lemma lex_antisym e1 m1 e2 m2 :
  FloatOrder.lex e2 m2 e1 m1 = CompOpp (FloatOrder.lex e1 m1 e2 m2).
Proof.
  destruct (lex_spec e1 m1 e2 m2), (lex_spec e2 m2 e1 m1);
    simpl; try reflexivity; lia.
Qed.

(** [SFcompare] compares the keys. *)
Lemma SFcompare_key x y :
  SFcompare x y =
  match FloatOrder.key_of x, FloatOrder.key_of y with
  | Some a, Some b => Some (FloatOrder.key_cmp a b)
  | _, _ => None
  end.
Proof.
  destruct x as [sx|sx| |sx mx ex], y as [sy|sy| |sy my ey]; simpl;
    try destruct sx; try destruct sy; simpl; try reflexivity.
  rewrite lex_antisym. unfold FloatOrder.lex.
  change (Pos.compare_cont Eq mx my) with (Pos.compare mx my).
  destruct (ex ?= ey)%Z; reflexivity.
Qed.

Lemma ltb_key x y :
  (x <? y) =
  match fkey x, fkey y with
  | Some a, Some b =>
      match FloatOrder.key_cmp a b with Lt => true | _ => false end
  | _, _ => false
  end.
Proof.
  rewrite FloatAxioms.ltb_spec. unfold SFltb, fkey. rewrite SFcompare_key.
  destruct (FloatOrder.key_of (Prim2SF x)), (FloatOrder.key_of (Prim2SF y));
    reflexivity.
Qed.

Lemma leb_key x y :
  (x <=? y) =
  match fkey x, fkey y with
  | Some a, Some b =>
      match FloatOrder.key_cmp a b with Gt => false | _ => true end
  | _, _ => false
  end.
Proof.
  rewrite FloatAxioms.leb_spec. unfold SFleb, fkey. rewrite SFcompare_key.
  destruct (FloatOrder.key_of (Prim2SF x)), (FloatOrder.key_of (Prim2SF y));
    reflexivity.
Qed.

Lemma eqb_key x y :
  (x =? y) =
  match fkey x, fkey y with
  | Some a, Some b =>
      match FloatOrder.key_cmp a b with Eq => true | _ => false end
  | _, _ => false
  end.
Proof.
  rewrite FloatAxioms.eqb_spec. unfold SFeqb, fkey. rewrite SFcompare_key.
  destruct (FloatOrder.key_of (Prim2SF x)), (FloatOrder.key_of (Prim2SF y));
    reflexivity.
Qed.

(** Decides a statement about [key_cmp] on keys, by cases on the keys and
    on the exponent-mantissa comparisons met. *)
Ltac key_order :=
  simpl;
  repeat match goal with
  | |- context [FloatOrder.lex ?a ?b ?c ?d] => destruct (lex_spec a b c d)
  end;
  intros; try discriminate; try reflexivity; try lia.

(** Turns float comparisons into comparisons of keys. *)
Ltac to_keys :=
  rewrite ?ltb_key, ?leb_key, ?eqb_key;
  repeat match goal with
  | |- context [fkey ?x] =>
      let k := fresh "k" in destruct (fkey x) as [k|]; [destruct k|]
  end;
  key_order.

Lemma ltb_irrefl x : (x <? x) = false.
Proof. to_keys. Qed.

Lemma ltb_trans x y z :
  (x <? y) = true -> (y <? z) = true -> (x <? z) = true.
Proof. to_keys. Qed.

Lemma leb_trans x y z :
  (x <=? y) = true -> (y <=? z) = true -> (x <=? z) = true.
Proof. to_keys. Qed.

Lemma leb_ltb_trans x y z :
  (x <=? y) = true -> (y <? z) = true -> (x <? z) = true.
Proof. to_keys. Qed.

Lemma ltb_leb x y : (x <? y) = true -> (x <=? y) = true.
Proof. to_keys. Qed.

Lemma leb_ltb_false x y : (x <=? y) = true -> (y <? x) = false.
Proof. to_keys. Qed.

Lemma ltb_leb_false x y : (x <? y) = true -> (y <=? x) = false.
Proof. to_keys. Qed.

Lemma eqb_leb x y : (x =? y) = true -> (x <=? y) = true.
Proof. to_keys. Qed.

Lemma leb_refl_eqb x : (x <=? x) = true -> (x =? x) = true.
Proof. to_keys. Qed.

(** ** The piecewise interpolant *)

Lemma last_cons_default {A : Type} (l : list A) : forall a d d',
  last (a :: l) d = last (a :: l) d'.
Proof.
  induction l as [|b l IH]; intros a d d'; [reflexivity|].
  change (last (b :: l) d = last (b :: l) d'). apply IH.
Qed.

Lemma last_cons_last {A : Type} (l : list A) (a d : A) :
  last (a :: l) d = last l a.
Proof.
  destruct l as [|b l]; [reflexivity|].
  change (last (b :: l) d = last (b :: l) a). apply last_cons_default.
Qed.

(** The scan passes every node whose abscissa is at or left of the
    query. *)
Lemma interp_from_skip x l1 : forall n0 l2,
  Forall (fun n => (fst n <=? x) = true) l1 ->
  interp_from x n0 (l1 ++ l2) = interp_from x (last l1 n0) l2.
Proof.
  induction l1 as [|n1 l1 IH]; intros n0 l2 Hle; [reflexivity|].
  inversion Hle as [|? ? Hn1 Hl1]; subst.
  cbn [app interp_from]. rewrite Hn1, IH by assumption.
  now rewrite last_cons_last.
Qed.

(** At a node whose abscissa is the query, with every later abscissa
    right of the query, the scan returns the node's value. *)
Lemma interp_from_at x n0 l2 :
  (fst n0 =? x) = true ->
  Forall (fun n => (x <? fst n) = true) l2 ->
  interp_from x n0 l2 = snd n0.
Proof.
  intros Heq Hgt. destruct l2 as [|n1 l2]; [reflexivity|].
  inversion Hgt as [|? ? Hn1 _]; subst.
  cbn [interp_from]. now rewrite (ltb_leb_false _ _ Hn1), Heq.
Qed.

Lemma interp_nodes_at x v l1 l2 :
  (x <=? x) = true ->
  Forall (fun n => (fst n <=? x) = true) l1 ->
  Forall (fun n => (x <? fst n) = true) l2 ->
  interp_nodes x (l1 ++ (x, v) :: l2) = Some v.
Proof.
  intros Hx Hle Hgt.
  assert (Hat : interp_from x (x, v) l2 = v)
    by (apply (interp_from_at x (x, v)); auto using leb_refl_eqb).
  destruct l1 as [|n0 l1]; cbn [app interp_nodes]; f_equal.
  - cbn [fst snd]. now rewrite ltb_irrefl.
  - inversion Hle as [|? ? Hn0 Hl1]; subst.
    rewrite (leb_ltb_false _ _ Hn0).
    change (l1 ++ (x, v) :: l2) with (l1 ++ [(x, v)] ++ l2).
    rewrite app_assoc, interp_from_skip.
    + now rewrite last_last.
    + apply Forall_app; split; [assumption|]. now constructor.
Qed.

Lemma combine_app_eq {A B : Type} (l1 l2 : list A) (r1 r2 : list B) :
  length l1 = length r1 ->
  combine (l1 ++ l2) (r1 ++ r2) = combine l1 r1 ++ combine l2 r2.
Proof.
  revert r1. induction l1 as [|a l1 IH]; intros [|b r1] Hlen;
    try discriminate; [reflexivity|].
  cbn. f_equal. apply IH. now injection Hlen.
Qed.

Lemma Forall_fst_combine {B : Type} (Q : float -> Prop) (xs : list float) :
  forall ys : list B,
  Forall Q xs -> Forall (fun n => Q (fst n)) (combine xs ys).
Proof.
  induction xs as [|a xs IH]; intros [|b ys] H; cbn; try constructor;
    inversion H; subst; auto.
Qed.

Lemma last_combine (xs ys : list float) : forall x0 y0,
  length xs = length ys ->
  last (combine xs ys) (x0, y0) = (last xs x0, last ys y0).
Proof.
  revert ys. induction xs as [|a xs IH]; intros [|b ys] x0 y0 Hlen;
    try discriminate; [reflexivity|].
  injection Hlen as Hlen.
  change (combine (a :: xs) (b :: ys)) with ((a, b) :: combine xs ys).
  now rewrite !last_cons_last, IH.
Qed.

(** In an ordered abscissa, whatever precedes an entry is at or left of
    it. *)
Lemma nondecreasing_before a rest : forall pre,
  nondecreasing (pre ++ a :: rest) = true ->
  Forall (fun t => (t <=? a) = true) pre.
Proof.
  induction pre as [|p pre IH]; intros Hs; [constructor|].
  cbn [app] in Hs.
  destruct pre as [|p' pre].
  - cbn in Hs. apply andb_prop in Hs as [Hp _]. constructor; auto.
  - cbn [app nondecreasing] in Hs. apply andb_prop in Hs as [Hp Hs].
    specialize (IH Hs). constructor; [|assumption].
    inversion IH; subst. eauto using leb_trans.
Qed.

(** In an ordered abscissa whose last entry is left of the query, every
    entry is at or left of the query. *)
Lemma nondecreasing_below x xs : forall x0,
  nondecreasing (x0 :: xs) = true ->
  (last xs x0 <? x) = true ->
  Forall (fun t => (t <=? x) = true) (x0 :: xs).
Proof.
  induction xs as [|x1 xs IH]; intros x0 Hs Hlast.
  - constructor; auto using ltb_leb.
  - cbn [nondecreasing] in Hs. apply andb_prop in Hs as [H01 Hs].
    rewrite last_cons_last in Hlast. specialize (IH x1 Hs Hlast).
    constructor; [|assumption].
    inversion IH; subst. eauto using leb_trans.
Qed.

(** C7. A query below the first abscissa returns the first value and one
    above the last abscissa returns the last value (clamping), for a
    lookup table as for a sequence; and a query returns a value wherever
    it falls: there is no error for a query outside the abscissa. *)
Theorem evaluate_clamps (I : Interpolant) (x x0 y0 : float) (xs ys : list float) :
  nodes_x I = x0 :: xs ->
  nodes_y I = y0 :: ys ->
  length xs = length ys ->
  nondecreasing (x0 :: xs) = true ->
  ((x <? x0) = true -> evaluate I x = Some y0) /\
  ((last xs x0 <? x) = true -> evaluate I x = Some (last ys y0)) /\
  (exists v, evaluate I x = Some v).
Proof.
  intros Hx Hy Hlen Hs. unfold evaluate, interp. rewrite Hx, Hy.
  cbn [length combine]. rewrite Hlen, Nat.eqb_refl. cbn [interp_nodes fst snd].
  repeat split.
  - intros ->. reflexivity.
  - intros Hlast.
    pose proof (nondecreasing_below x xs x0 Hs Hlast) as Hall.
    inversion Hall as [|? ? H0 Hrest]; subst.
    rewrite (leb_ltb_false _ _ H0). f_equal.
    rewrite <- (app_nil_r (combine xs ys)), interp_from_skip.
    + cbn [interp_from]. now rewrite last_combine.
    + now apply (Forall_fst_combine (fun t => (t <=? x) = true)).
  - eexists. reflexivity.
Qed.

Lemma evaluate_clamps_witness :
  evaluate (OfSequence (mkSequence [0; 0.5; 0.5; 3.5; 3.5; 4] [0; 0; 20.1; 20.1; 0; 7]))
    (-1) = Some 0
  /\ evaluate (OfSequence (mkSequence [0; 0.5; 0.5; 3.5; 3.5; 4] [0; 0; 20.1; 20.1; 0; 7]))
       5 = Some 7.
Proof.
  split.
  - apply (evaluate_clamps
             (OfSequence (mkSequence [0; 0.5; 0.5; 3.5; 3.5; 4] [0; 0; 20.1; 20.1; 0; 7]))
             (-1) 0 0 [0.5; 0.5; 3.5; 3.5; 4] [0; 20.1; 20.1; 0; 7]);
      reflexivity.
  - apply (evaluate_clamps
             (OfSequence (mkSequence [0; 0.5; 0.5; 3.5; 3.5; 4] [0; 0; 20.1; 20.1; 0; 7]))
             5 0 0 [0.5; 0.5; 3.5; 3.5; 4] [0; 20.1; 20.1; 0; 7]);
      reflexivity.
Defined.

(** C6. Where two adjacent abscissa entries are equal (a step), and the
    entries after them are larger, a query exactly at that abscissa
    returns the value paired with the second of the two entries
    (right-limit), for a lookup table as for a sequence. *)
Theorem evaluate_right_limit (I : Interpolant) (a v1 v2 : float)
  (pre post vpre vpost : list float) :
  nodes_x I = pre ++ a :: a :: post ->
  nodes_y I = vpre ++ v1 :: v2 :: vpost ->
  length pre = length vpre ->
  length post = length vpost ->
  nondecreasing (nodes_x I) = true ->
  Forall (fun t => (a <? t) = true) post ->
  evaluate I a = Some v2.
Proof.
  intros Hx Hy Hpre Hpost Hs Hgt. unfold evaluate, interp.
  rewrite Hx in Hs. rewrite Hx, Hy.
  assert (Hlen : length (pre ++ a :: a :: post)
                 = length (vpre ++ v1 :: v2 :: vpost))
    by (rewrite !length_app; cbn [length]; lia).
  rewrite Hlen, Nat.eqb_refl, combine_app_eq by assumption.
  cbn [combine].
  change (combine pre vpre ++ (a, v1) :: (a, v2) :: combine post vpost)
    with (combine pre vpre ++ [(a, v1)] ++ (a, v2) :: combine post vpost).
  rewrite app_assoc.
  assert (Hle : Forall (fun t => (t <=? a) = true) (pre ++ [a])).
  { apply (nondecreasing_before a post). now rewrite <- app_assoc. }
  apply Forall_app in Hle as [Hle Ha]. inversion Ha as [|? ? Haa _]; subst.
  apply interp_nodes_at; [assumption| |].
  - apply Forall_app. split.
    + now apply (Forall_fst_combine (fun t => (t <=? a) = true)).
    + constructor; [exact Haa|constructor].
  - now apply (Forall_fst_combine (fun t => (a <? t) = true)).
Qed.

Lemma evaluate_right_limit_witness :
  evaluate (OfSequence (mkSequence [0; 0.5; 0.5; 3.5; 3.5; 4] [0; 0; 20.1; 20.1; 0; 0]))
    0.5 = Some 20.1.
Proof.
  apply (evaluate_right_limit
           (OfSequence (mkSequence [0; 0.5; 0.5; 3.5; 3.5; 4] [0; 0; 20.1; 20.1; 0; 0]))
           0.5 0 20.1 [0] [3.5; 3.5; 4] [0] [20.1; 0; 0]);
    try reflexivity.
  repeat constructor.
Defined.

(** ** The configuration script *)

Section ScriptProperties.

Variable sweep : float -> list float.
Variable mtpa_closed_form : OptimalLoci -> float -> Complex.
Variable mtpv_locus : OptimalLoci -> float -> list Complex.

(** C1. The script asks for the MTPA locus and for the MTPV locus with the
    sweep bound [2 * pars.i_s_max]; it builds exactly two lookup tables,
    torque to d-axis current of the MTPA locus and d-axis current to
    q-axis current of the MTPV locus, both before the first component of
    the control system is constructed; and every component is constructed
    from the parameter object that holds the two tables. *)
Theorem script_builds_two_tables (base : BaseValues.t) (mdl0 : Mdl) :
  exists opt_refs ctrl st i_s_mtpa i_s_mtpv,
    run sweep mtpa_closed_form mtpv_locus base mdl0 = Ok (opt_refs, ctrl, st)
    /\ mtpa sweep mtpa_closed_form opt_refs
         (2 * CtrlParameters.i_s_max CtrlParameters.init) = Ok i_s_mtpa
    /\ mtpv mtpv_locus opt_refs
         (2 * CtrlParameters.i_s_max CtrlParameters.init) = Ok i_s_mtpv
    /\ mtpa_bounds (st_log st) = [2 * CtrlParameters.i_s_max CtrlParameters.init]
    /\ mtpv_bounds (st_log st) = [2 * CtrlParameters.i_s_max CtrlParameters.init]
    /\ luts_built (st_log st)
       = [mkLUT (torque opt_refs i_s_mtpa) (map real i_s_mtpa);
          mkLUT (map real i_s_mtpv) (map imag i_s_mtpv)]
    /\ luts_built (before_controllers (st_log st)) = luts_built (st_log st)
    /\ CtrlParameters.i_sd_mtpa (st_pars st)
       = Some (mkLUT (torque opt_refs i_s_mtpa) (map real i_s_mtpa))
    /\ CtrlParameters.i_sq_mtpv (st_pars st)
       = Some (mkLUT (map real i_s_mtpv) (map imag i_s_mtpv))
    /\ length (constructed_from (st_log st)) = 5%nat
    /\ Forall (fun pars => pars = st_pars st) (constructed_from (st_log st)).
Proof.
  vm_compute. do 5 eexists. split; [reflexivity|].
  split; [reflexivity|]. split; [reflexivity|].
  repeat split; try reflexivity.
  repeat constructor.
Qed.


(** C10. The stop time is the last breakpoint time of the speed reference,
    4 s, and every breakpoint time of the speed reference lies between 0
    and the stop time. *)
Theorem t_stop_is_last_breakpoint (base : BaseValues.t) (mdl0 : Mdl) :
  exists opt_refs ctrl st sr t,
    run sweep mtpa_closed_form mtpv_locus base mdl0 = Ok (opt_refs, ctrl, st)
    /\ speed_ref (st_mdl st) = Some sr
    /\ last_item (times sr) = Ok t
    /\ t_stop (st_mdl st) = Some t
    /\ t = 4
    /\ Forall (fun bp => (0 <=? bp) = true /\ (bp <=? t) = true) (times sr).
Proof.
  vm_compute. do 5 eexists. split; [reflexivity|].
  split; [reflexivity|]. split; [reflexivity|].
  repeat split; try reflexivity.
  repeat constructor.
Qed.

(** C5. The speed reference the script builds, from the times
    [0, 0.5, ..., 4] and the values [0, 0, 1, 1, 0, -1, -1, 0, 0] scaled by
    the base angular speed [base.w], is exactly [1 * base.w] at [t = 1.25]
    and exactly [-0.5 * base.w] at [t = 2.25]. *)
Theorem speed_ref_scenario (mdl0 : Mdl) :
  exists opt_refs ctrl st sr,
    main sweep mtpa_closed_form mtpv_locus mdl0 = Ok (opt_refs, ctrl, st)
    /\ speed_ref (st_mdl st) = Some sr
    /\ times sr = [0; 0.5; 1; 1.5; 2; 2.5; 3; 3.5; 4]
    /\ values sr = scale [0; 0; 1; 1; 0; -1; -1; 0; 0]%Z
                     (BaseValues.w (BaseValues.init BaseValues.no_kwargs))
    /\ evaluate (OfSequence sr) 1.25
       = Some (1 * BaseValues.w (BaseValues.init BaseValues.no_kwargs))
    /\ evaluate (OfSequence sr) 2.25
       = Some (-0.5 * BaseValues.w (BaseValues.init BaseValues.no_kwargs)).
Proof.
  vm_compute. do 4 eexists. split; [reflexivity|].
  split; [reflexivity|].
  repeat split; reflexivity.
Qed.

(** The load torque the script builds steps at 0.5 s and at 3.5 s: at
    each of the two times the value of the second entry is returned. *)
Example load_torque_steps (mdl0 : Mdl) :
  match main sweep mtpa_closed_form mtpv_locus mdl0 with
  | Ok (_, _, st) =>
      match tau_L_ext (st_mdl st) with
      | Some tl =>
          evaluate (OfSequence tl) 0.5 = Some 20.1
          /\ evaluate (OfSequence tl) 3.5 = Some 0
      | None => False
      end
  | Err _ => False
  end.
Proof. vm_compute. split; reflexivity. Qed.

End ScriptProperties.


(** ** Base values *)

(** C2, as it is stated, fails: with the valid rated inputs [w = i = u = 1],
    [p = 1], the derived fields are still the defaults and the identities
    do not hold. *)
Lemma rated_inputs_break_identities :
  BaseValues.valid_rated 1 1 1 1 = true
  /\ BaseValues.identities (BaseValues.init (BaseValues.rated 1 1 1 1)) = false.
Proof. split; vm_compute; reflexivity. Qed.

(** C2, as amended. The record the script constructs, [BaseValues()] with
    every field at its default, satisfies the four identities exactly:
    [Z * i = u], [L * w = Z], [P = 1.5 * u * i] and [tau * w = p * P].
    A record constructed from other rated inputs stores them and keeps
    the defaults of the derived fields. *)
Theorem default_base_values_identities :
  BaseValues.identities (BaseValues.init BaseValues.no_kwargs) = true
  /\ forall (w i u : float) (p : Z),
       BaseValues.init (BaseValues.rated w i u p)
       = BaseValues.mk w i u p
           BaseValues.psi_default BaseValues.P_default BaseValues.Z_default
           BaseValues.L_default BaseValues.tau_default.
Proof.
  split; [vm_compute; reflexivity|]. intros. reflexivity.
Qed.

(** C8, as it is stated, fails: the call [BaseValues(w=-1, i=1, u=1, p=1)]
    has a rated input that is not positive, and returns a record. *)
Lemma nonpositive_input_is_accepted :
  BaseValues.valid_rated (-1) 1 1 1 = false
  /\ BaseValues.construct (BaseValues.rated (-1) 1 1 1)
     = Ok (BaseValues.init (BaseValues.rated (-1) 1 1 1))
  /\ BaseValues.w (BaseValues.init (BaseValues.rated (-1) 1 1 1)) = -1.
Proof. repeat split. Qed.

(** C8, as amended. Constructing a [BaseValues] record checks nothing: the
    call returns a record for every input, positive or not, with each
    field at its argument or at its default; it has no error path. *)
Theorem construct_never_fails (k : BaseValues.kwargs) :
  BaseValues.construct k = Ok (BaseValues.init k)
  /\ (forall e, BaseValues.construct k <> Err e)
  /\ BaseValues.w (BaseValues.init k)
     = BaseValues.or_default (BaseValues.kw_w k) BaseValues.w_default
  /\ BaseValues.i (BaseValues.init k)
     = BaseValues.or_default (BaseValues.kw_i k) BaseValues.i_default
  /\ BaseValues.u (BaseValues.init k)
     = BaseValues.or_default (BaseValues.kw_u k) BaseValues.u_default
  /\ BaseValues.p (BaseValues.init k)
     = BaseValues.or_default (BaseValues.kw_p k) BaseValues.p_default.
Proof.
  repeat split. intros e H. discriminate H.
Qed.

(** ** The optimal loci *)

Section LociProperties.

Variable sweep : float -> list float.
Variable mtpa_closed_form : OptimalLoci -> float -> Complex.

(** C3. With [L_d == L_q] the closed form is not evaluated: the solver
    signals the degenerate machine inside and falls back to the q-axis
    solution, so that it returns, for every swept magnitude, the phasor
    with real part 0 and that magnitude as imaginary part.  No phasor is
    NaN when no swept magnitude is, and the degenerate condition never is
    the solver's result. *)
Theorem mtpa_degenerate (ol : OptimalLoci) (bound : float) :
  (ol_L_d ol =? ol_L_q ol) = true ->
  (forall m, mtpa_salient mtpa_closed_form ol m = Err DegenerateMachineError
             /\ mtpa_point mtpa_closed_form ol m = q_axis_only m)
  /\ mtpa sweep mtpa_closed_form ol bound <> Err DegenerateMachineError
  /\ ((bound <=? 0) = false ->
      mtpa sweep mtpa_closed_form ol bound = Ok (map q_axis_only (sweep bound)))
  /\ Forall (fun i_s => real i_s = 0) (map q_axis_only (sweep bound))
  /\ map imag (map q_axis_only (sweep bound)) = sweep bound
  /\ (Forall (fun m => is_nan m = false) (sweep bound) ->
      Forall (fun i_s => is_nan (real i_s) = false /\ is_nan (imag i_s) = false)
        (map q_axis_only (sweep bound))).
Proof.
  intros Hdeg.
  assert (Hsal : forall m,
             mtpa_salient mtpa_closed_form ol m = Err DegenerateMachineError)
    by (intros m; unfold mtpa_salient; now rewrite Hdeg).
  assert (Hpt : forall m, mtpa_point mtpa_closed_form ol m = q_axis_only m)
    by (intros m; unfold mtpa_point; now rewrite Hsal).
  split; [intros m; split; auto|].
  split; [unfold mtpa; destruct (bound <=? 0); discriminate|].
  split; [|split; [|split]].
  - intros Hbound. unfold mtpa. rewrite Hbound. f_equal. apply map_ext, Hpt.
  - apply Forall_map, Forall_forall. reflexivity.
  - rewrite map_map. cbn [q_axis_only imag]. apply map_id.
  - intros Hnum. apply Forall_map. revert Hnum. apply Forall_impl.
    intros m Hm. cbn [q_axis_only real imag]. split; [reflexivity|exact Hm].
Qed.

End LociProperties.

Lemma mtpa_degenerate_witness :
  mtpa sweep3 mtpa_45deg (mkOptimalLoci 2 0.1 0.01 0.01) 3
  = Ok [mkComplex 0 0; mkComplex 0 1.5; mkComplex 0 3].
Proof.
  destruct (mtpa_degenerate sweep3 mtpa_45deg (mkOptimalLoci 2 0.1 0.01 0.01) 3
              eq_refl) as (_ & _ & Hok & _).
  exact (Hok eq_refl).
Defined.

(** ** The MTPA table *)

Section TableProperties.

Variable sweep : float -> list float.
Variable mtpa_closed_form : OptimalLoci -> float -> Complex.
Variable mtpv_locus : OptimalLoci -> float -> list Complex.

(** The parameter object at the end of a run. *)
Lemma run_pars (base : BaseValues.t) (mdl0 : Mdl) :
  pars_of (run sweep mtpa_closed_form mtpv_locus base mdl0)
  = Some
      (CtrlParameters.set_i_sq_mtpv
         (mkLUT
            (map real (mtpv_locus (OptimalLoci_init CtrlParameters.init)
                         (2 * CtrlParameters.i_s_max CtrlParameters.init)))
            (map imag (mtpv_locus (OptimalLoci_init CtrlParameters.init)
                         (2 * CtrlParameters.i_s_max CtrlParameters.init))))
         (CtrlParameters.set_i_sd_mtpa
            (mkLUT
               (torque (OptimalLoci_init CtrlParameters.init)
                  (map (mtpa_closed_form (OptimalLoci_init CtrlParameters.init))
                     (sweep (2 * CtrlParameters.i_s_max CtrlParameters.init))))
               (map real
                  (map (mtpa_closed_form (OptimalLoci_init CtrlParameters.init))
                     (sweep (2 * CtrlParameters.i_s_max CtrlParameters.init)))))
            CtrlParameters.init)).
Proof. vm_compute. reflexivity. Qed.


End TableProperties.


(** * Further properties of the script *)

(** ** The stop time *)

Lemma leb_refl_r x y : (x <=? y) = true -> (y <=? y) = true.
Proof. to_keys. Qed.

Lemma nondecreasing_upto_last (xs : list float) : forall x0 x1,
  nondecreasing (x0 :: x1 :: xs) = true ->
  Forall (fun bp => (bp <=? last xs x1) = true) (x0 :: x1 :: xs).
Proof.
  induction xs as [|x2 xs IH]; intros x0 x1 Hs;
    cbn [nondecreasing] in Hs; apply andb_prop in Hs as [H01 Hs].
  - cbn [last]. repeat constructor; eauto using leb_refl_r.
  - specialize (IH x1 x2 Hs). rewrite last_cons_last.
    constructor; [|exact IH].
    inversion IH; subst. eauto using leb_trans.
Qed.

(** X7. For an ordered array of at least two breakpoint times, [times[-1]]
    exists and every breakpoint time is at or before it: a stop time read
    as [times[-1]] cuts no breakpoint off.  On an empty array [times[-1]]
    raises. *)
Theorem last_item_bounds (x0 x1 : float) (xs : list float) :
  nondecreasing (x0 :: x1 :: xs) = true ->
  exists t,
    last_item (x0 :: x1 :: xs) = Ok t
    /\ Forall (fun bp => (bp <=? t) = true) (x0 :: x1 :: xs)
    /\ last_item [] = Err PythonException.
Proof.
  intros Hs. exists (last xs x1). repeat split.
  - cbn [last_item]. now rewrite last_cons_last.
  - now apply nondecreasing_upto_last.
Qed.

Lemma last_item_bounds_witness :
  exists t,
    last_item [0; 0.5; 0.5; 3.5; 3.5; 4] = Ok t
    /\ Forall (fun bp => (bp <=? t) = true) [0; 0.5; 0.5; 3.5; 3.5; 4]
    /\ last_item [] = Err PythonException.
Proof.
  apply (last_item_bounds 0 0.5 [0.5; 3.5; 3.5; 4]). reflexivity.
Defined.

(** ** Runs of the script *)

Section ScriptRuns.

Variable sweep : float -> list float.
Variable mtpa_closed_form : OptimalLoci -> float -> Complex.
Variable mtpv_locus : OptimalLoci -> float -> list Complex.

(** X2. The script changes no declared parameter: the locus solver is
    constructed from [CtrlParameters()] as it is, before any table
    exists, every component of the control system is constructed from an
    object with the same declared fields, and the solver's motor
    parameters are those of the object the run ends with. *)
Theorem script_keeps_declared_parameters (base : BaseValues.t) (mdl0 : Mdl) :
  exists opt_refs ctrl st,
    run sweep mtpa_closed_form mtpv_locus base mdl0 = Ok (opt_refs, ctrl, st)
    /\ loci_constructed_from (st_log st) = [CtrlParameters.init]
    /\ Forall (fun pars => without_tables pars = CtrlParameters.init)
         (constructed_from (st_log st))
    /\ without_tables (st_pars st) = CtrlParameters.init
    /\ OptimalLoci_init (st_pars st) = opt_refs.
Proof.
  vm_compute. do 3 eexists. split; [reflexivity|].
  repeat split. repeat constructor.
Qed.

(** X3. The assembled control system holds one controller of each of the
    four classes, each constructed from the parameter object the
    assembly itself is given, which is the object the run ends with and
    holds both tables. *)
Theorem control_system_wiring (base : BaseValues.t) (mdl0 : Mdl) :
  exists opt_refs ctrl st,
    run sweep mtpa_closed_form mtpv_locus base mdl0 = Ok (opt_refs, ctrl, st)
    /\ ctrl_pars ctrl = st_pars st
    /\ ctrl_speed_ctrl ctrl = mkController SpeedCtrl (ctrl_pars ctrl)
    /\ ctrl_current_ref ctrl = mkController CurrentRef (ctrl_pars ctrl)
    /\ ctrl_current_ctrl ctrl = mkController CurrentCtrl (ctrl_pars ctrl)
    /\ ctrl_observer ctrl = mkController SensorlessObserver (ctrl_pars ctrl)
    /\ CtrlParameters.i_sd_mtpa (ctrl_pars ctrl) <> None
    /\ CtrlParameters.i_sq_mtpv (ctrl_pars ctrl) <> None.
Proof.
  vm_compute. do 3 eexists. split; [reflexivity|].
  repeat split; discriminate.
Qed.

(** X4. The calls of a run, in their order: the solver, the MTPA locus,
    its torque and its table, the MTPV locus and its table, the plot,
    the four controllers, the data logger, the assembly, and the two
    sequences.  The plot is called once, with the sweep bound of the loci
    and the base values of the run; two sequences are built, the speed
    reference first. *)
Theorem script_call_order (base : BaseValues.t) (mdl0 : Mdl) :
  exists opt_refs ctrl st sr tl,
    run sweep mtpa_closed_form mtpv_locus base mdl0 = Ok (opt_refs, ctrl, st)
    /\ map call_of (st_log st)
       = [CallOptimalLoci; CallMtpa; CallTorque; CallLUT; CallMtpv; CallLUT;
          CallPlot;
          CallNew SpeedCtrl; CallNew CurrentRef; CallNew CurrentCtrl;
          CallNew SensorlessObserver; CallDatalogger; CallSensorlessVectorCtrl;
          CallSequence; CallSequence]
    /\ plots (st_log st)
       = [(2 * CtrlParameters.i_s_max CtrlParameters.init, base)]
    /\ speed_ref (st_mdl st) = Some sr
    /\ tau_L_ext (st_mdl st) = Some tl
    /\ sequences_built (st_log st) = [sr; tl].
Proof.
  vm_compute. do 5 eexists. split; [reflexivity|].
  repeat split.
Qed.

(** X5. Whatever the base values are, the two profiles are well-formed
    sequences: as many values as times, ordered times, the first time 0;
    and the load torque ends at the same time as the speed reference,
    which is the stop time. *)
Theorem profiles_well_formed (base : BaseValues.t) (mdl0 : Mdl) :
  exists opt_refs ctrl st sr tl t,
    run sweep mtpa_closed_form mtpv_locus base mdl0 = Ok (opt_refs, ctrl, st)
    /\ speed_ref (st_mdl st) = Some sr
    /\ tau_L_ext (st_mdl st) = Some tl
    /\ length (times sr) = length (values sr)
    /\ length (times tl) = length (values tl)
    /\ nondecreasing (times sr) = true
    /\ nondecreasing (times tl) = true
    /\ hd_error (times sr) = Some 0
    /\ hd_error (times tl) = Some 0
    /\ last_item (times sr) = Ok t
    /\ last_item (times tl) = Ok t
    /\ t_stop (st_mdl st) = Some t.
Proof.
  vm_compute. do 6 eexists. split; [reflexivity|].
  repeat split.
Qed.

(** X6. Whatever the loci are, the two tables the script stores are
    well-formed: each has as many values as abscissa entries, and the MTPA
    table has one entry for each swept magnitude.  The configured machine
    is salient, so the MTPA table is made of the closed form at each
    swept magnitude: the q-axis fallback is not taken. *)
Theorem tables_well_formed (base : BaseValues.t) (mdl0 : Mdl) :
  exists pars t1 t2,
    pars_of (run sweep mtpa_closed_form mtpv_locus base mdl0) = Some pars
    /\ CtrlParameters.i_sd_mtpa pars = Some t1
    /\ CtrlParameters.i_sq_mtpv pars = Some t2
    /\ length (abscissa t1) = length (value t1)
    /\ length (abscissa t1)
       = length (sweep (2 * CtrlParameters.i_s_max CtrlParameters.init))
    /\ length (abscissa t2) = length (value t2)
    /\ value t1
       = map (fun m => real (mtpa_closed_form
                               (OptimalLoci_init CtrlParameters.init) m))
           (sweep (2 * CtrlParameters.i_s_max CtrlParameters.init)).
Proof.
  rewrite run_pars. do 3 eexists.
  split; [reflexivity|]. split; [reflexivity|]. split; [reflexivity|].
  cbn [abscissa value]. unfold torque. rewrite !length_map, map_map.
  repeat split.
Qed.

End ScriptRuns.
